(** * BSL-postgres: the SQL-to-semantic-layer adapter of [bsl_psql/server.py]

    A shallow embedding of [BSLSemanticCatalog], [BSLConnection] and
    [BSLPostgresServer], followed by the properties of the translation
    performed by [BSLConnection.handle_query].

    The adapter talks to three collaborators that are not part of the
    repository: the SQL parser (sqlglot), the semantic table (boring
    semantic layer) and the wire protocol engine (riffq).  Each of them
    appears here as data or as a parameter; see the comments at the
    declarations. *)

From stdpp Require Import gmap strings list.

Local Open Scope string_scope.
Local Open Scope list_scope.

(** ** Exceptions *)

(** Everything raised inside the [try] block of [handle_query].  The first
    three are the [Exception(...)] the handler raises itself (lines 90, 97
    and 125); they are told apart by their message, see [str].  The last two
    stand for whatever a collaborator raises, with its message. *)
Inductive Exn : Type :=
  | NoTableSpecified
  | TableNotFound (table_name : string)
  | ColumnNotFound (col table_name : string)
  | ParseError (msg : string)
  | ExecutionError (msg : string).

(** [str(e)], the text handed to the callback on line 145. *)
Definition str (e : Exn) : string :=
  match e with
  | NoTableSpecified => "No table specified in query"
  | TableNotFound table_name =>
      "Table '" +:+ table_name +:+ "' not found in semantic catalog"
  | ColumnNotFound col table_name =>
      "Column '" +:+ col +:+ "' not found in semantic table '" +:+ table_name +:+ "'"
  | ParseError msg => msg
  | ExecutionError msg => msg
  end.

(** The [try] block is sequential code in which any step may raise: the
    error monad on [Exn + _], with stdpp's [x ← m; k] notation. *)
#[global] Instance exn_ret : MRet (sum Exn) := λ A x, inr x.
#[global] Instance exn_bind : MBind (sum Exn) := λ A B f m,
  match m with
  | inl e => inl e
  | inr x => f x
  end.

Definition raise {A : Type} (e : Exn) : Exn + A := inl e.

(** ** The parsed statement, as the handler looks at it *)

(** A node of the tree returned by [sqlglot.parse_one].  The handler tells
    node classes apart with [isinstance] and reads the properties [name] and
    [alias]; the constructors are the classes it can meet.
    - [Alias this alias] is [this AS alias];
    - [Identifier this] is a bare identifier token;
    - [Column this] is a column reference whose identifier reads [this];
    - [Table this] is a table reference;
    - [Node name] is a node of any other class (function call, literal,
      star, ...) together with the value of its [name] property. *)
Inductive Expression : Type :=
  | Alias (this : Expression) (alias_name : string)
  | Identifier (this : string)
  | Column (this : string)
  | Table (this : string)
  | Node (node_name : string).

Definition isinstance_Alias (e : Expression) : bool :=
  match e with Alias _ _ => true | _ => false end.

Definition isinstance_Identifier (e : Expression) : bool :=
  match e with Identifier _ => true | _ => false end.

(** [e.name].  The handler reads it from table nodes, from select items
    that are not [Alias] nodes and from [Identifier] nodes of a GROUP BY
    list; the two [Alias] cases only make the function total. *)
Definition name (e : Expression) : string :=
  match e with
  | Alias (Identifier s) _ => s
  | Alias _ _ => ""
  | Identifier s => s
  | Column s => s
  | Table s => s
  | Node s => s
  end.

(** [e.alias]: empty for a node without one. *)
Definition alias (e : Expression) : string :=
  match e with
  | Alias _ a => a
  | _ => ""
  end.

(** The three views of the tree [ast] that [handle_query] takes:
    [ast.find(exp.Table)], [ast.selects] and [ast.args.get("group")] with
    the [expressions] of the group node.  The record stands for the tree of
    a query statement, which has a select list.  For a parsed statement of
    another class (DROP, DELETE, ...) reading [ast.selects] on line 101
    raises, after the table lookup; that path is not covered here. *)
Record Ast : Type := {
  find_Table : option Expression;
  selects : list Expression;
  group : option (list Expression);
}.

(** *** Trees of the example statements *)

(** The three statements that [example_usage.py] and the specification use,
    and a few more, with the trees sqlglot builds for them: a column name in
    a select list or in a GROUP BY list is parsed to a [Column] node, the
    table after FROM to a [Table] node, a number to a literal whose [name] is
    its text. *)

(** SELECT origin, total_passengers FROM flights *)
Definition ast_origin_passengers : Ast :=
  {| find_Table := Some (Table "flights");
     selects := [Column "origin"; Column "total_passengers"];
     group := None |}.

(** SELECT region, total_units FROM sales GROUP BY region *)
Definition ast_region_units_by_region : Ast :=
  {| find_Table := Some (Table "sales");
     selects := [Column "region"; Column "total_units"];
     group := Some [Column "region"] |}.

(** SELECT region, total_units FROM sales GROUP BY product *)
Definition ast_region_units_by_product : Ast :=
  {| find_Table := Some (Table "sales");
     selects := [Column "region"; Column "total_units"];
     group := Some [Column "product"] |}.

(** SELECT origin, bogus, total_passengers FROM flights *)
Definition ast_bogus_column : Ast :=
  {| find_Table := Some (Table "flights");
     selects := [Column "origin"; Column "bogus"; Column "total_passengers"];
     group := None |}.

(** SELECT origin FROM nowhere *)
Definition ast_unknown_table : Ast :=
  {| find_Table := Some (Table "nowhere");
     selects := [Column "origin"];
     group := None |}.

(** SELECT 1 *)
Definition ast_no_table : Ast :=
  {| find_Table := None;
     selects := [Node "1"];
     group := None |}.



(** SELECT total_passengers FROM flights *)
Definition ast_passengers_only : Ast :=
  {| find_Table := Some (Table "flights");
     selects := [Column "total_passengers"];
     group := None |}.

(** A tree like that of SELECT region, total_units FROM sales GROUP BY
    product, origin + 1 but built by hand with a bare identifier as its first
    GROUP BY item; the second item is some other expression. *)
Definition ast_group_identifier : Ast :=
  {| find_Table := Some (Table "sales");
     selects := [Column "region"; Column "total_units"];
     group := Some [Identifier "product"; Node ""] |}.

(** SELECT region, region, total_units, region FROM sales *)
Definition ast_repeated : Ast :=
  {| find_Table := Some (Table "sales");
     selects := [Column "region"; Column "region"; Column "total_units";
                 Column "region"];
     group := None |}.

(** A parser defined on the statements above only, for running the handler
    on them; any other text is answered with a parse error. *)
Definition parse_examples (query : string) : Exn + Ast :=
  if bool_decide (query = "SELECT origin, total_passengers FROM flights") then
    inr ast_origin_passengers
  else if bool_decide (query = "SELECT region, total_units FROM sales GROUP BY region") then
    inr ast_region_units_by_region
  else if bool_decide (query = "SELECT region, total_units FROM sales GROUP BY product") then
    inr ast_region_units_by_product
  else if bool_decide (query = "SELECT origin, bogus, total_passengers FROM flights") then
    inr ast_bogus_column
  else if bool_decide (query = "SELECT origin FROM nowhere") then
    inr ast_unknown_table
  else if bool_decide (query = "SELECT 1") then
    inr ast_no_table
  else if bool_decide (query = "SELECT total_passengers FROM flights") then
    inr ast_passengers_only
  else
    inl (ParseError "Invalid expression / Unexpected token").

(** A backend for running the examples: a batch is represented by the names
    of its columns, the grouping columns followed by the measures. *)
Definition run_names (group_by_cols meas : list string) : Exn + list string :=
  inr (group_by_cols ++ meas).

(** A backend that is down. *)
Definition run_down (group_by_cols meas : list string) : Exn + list string :=
  inl (ExecutionError "backend unavailable").

(** An engine that accepts every batch. *)
Definition deliver_always (batch : list string) : option Exn := None.

(** ** Semantic tables and the catalog *)

Section Server.

(** What [bsl_query.execute()] returns: a record batch reader. *)
Variable Batch : Type.

(** [sqlglot.parse_one]: a tree, or the parser's exception. *)
Variable parse_one : string -> Exn + Ast.

(** [BaseConnection.send_reader(batch, callback)] of riffq exports the batch
    as an Arrow stream (data with its schema) and, as its last step, passes
    the stream to [callback].  [None]: the stream was delivered.  [Some e]:
    the export raised [e] and the callback was not reached. *)
Variable send_reader : Batch -> option Exn.

(** A [SemanticTable] as the handler uses it: the two name collections it
    tests with [in], and the chain [group_by], [aggregate], [execute] applied
    to the grouping columns and the measures. *)
Record SemanticTable : Type := {
  dimensions : list string;
  measures : list string;
  execute : list string -> list string -> Exn + Batch;
}.

(** [BSLSemanticCatalog]: the dict [self.tables].  [list_tables] is left
    out: nothing below depends on the order of the keys. *)
Record BSLSemanticCatalog : Type := {
  tables : gmap string SemanticTable;
}.

(** [BSLSemanticCatalog()] *)
Definition new_catalog : BSLSemanticCatalog := {| tables := ∅ |}.

(** [self.tables[name] = semantic_table] *)
Definition register_table (name : string) (semantic_table : SemanticTable)
    (self : BSLSemanticCatalog) : BSLSemanticCatalog :=
  {| tables := <[name := semantic_table]> (tables self) |}.

(** [self.tables.get(name)] *)
Definition get_table (name : string) (self : BSLSemanticCatalog)
    : option SemanticTable :=
  tables self !! name.

(** ** The connection *)

(** The class attribute [BSLConnection.catalog].  It is [None] in the class
    body and bound by [serve] before the engine creates any connection, so a
    connection is modelled with the bound catalog. *)
Record BSLConnection : Type := {
  catalog : BSLSemanticCatalog;
}.

(** [callback(user == "user" and password == "secret")]: the value passed to
    the callback. *)
Definition handle_auth (self : BSLConnection) (user password host : string)
    (database : option string) : bool :=
  bool_decide (user = "user") && bool_decide (password = "secret").

(** [callback(True)] *)
Definition handle_connect (self : BSLConnection) (ip : string) (port : Z) : bool :=
  true.

(** [callback(True)] *)
Definition handle_disconnect (self : BSLConnection) (ip : string) (port : Z) : bool :=
  true.

(** *** Translation: lines 85 to 129 of [handle_query] *)

(** The local variables of [handle_query] when line 131 is reached. *)
Record TranslatedQuery : Type := {
  tq_table_name : string;
  tq_semantic_table : SemanticTable;
  tq_dimensions : list string;
  tq_measures : list string;
  tq_group_by_cols : list string;
}.

(** One round of the loop of lines 101 to 105. *)
Definition select_col (select_expr : Expression) : string :=
  if isinstance_Alias select_expr then alias select_expr else name select_expr.

(** Lines 100 to 105. *)
Definition select_cols (ast : Ast) : list string :=
  select_col <$> selects ast.

(** Lines 108 to 113: only [Identifier] nodes contribute. *)
Definition explicit_group_by (ast : Ast) : list string :=
  match group ast with
  | None => []
  | Some expressions => name <$> filter (λ e, isinstance_Identifier e = true) expressions
  end.

(** Lines 119 to 125: the loop appends to [dimensions] or [measures] and
    raises at the first column that is in neither collection. *)
Fixpoint classify (semantic_table : SemanticTable) (table_name : string)
    (cols : list string) (dims meas : list string)
    : Exn + (list string * list string) :=
  match cols with
  | [] => inr (dims, meas)
  | col :: rest =>
      if bool_decide (col ∈ dimensions semantic_table) then
        classify semantic_table table_name rest (dims ++ [col]) meas
      else if bool_decide (col ∈ measures semantic_table) then
        classify semantic_table table_name rest dims (meas ++ [col])
      else
        raise (ColumnNotFound col table_name)
  end.

(** Lines 128 and 129: [if not group_by_cols and dimensions]. *)
Definition infer_group_by (group_by_cols dims : list string) : list string :=
  match group_by_cols, dims with
  | [], _ :: _ => dims
  | _, _ => group_by_cols
  end.

(** Lines 99 to 129, once the table has been resolved. *)
Definition translate_table (table_name : string) (semantic_table : SemanticTable)
    (ast : Ast) : Exn + TranslatedQuery :=
  let cols := select_cols ast in
  let group_by_cols := explicit_group_by ast in
  '(dims, meas) ← classify semantic_table table_name cols [] [];
  mret {| tq_table_name := table_name;
          tq_semantic_table := semantic_table;
          tq_dimensions := dims;
          tq_measures := meas;
          tq_group_by_cols := infer_group_by group_by_cols dims |}.

(** Lines 87 to 129. *)
Definition translate_ast (self : BSLConnection) (ast : Ast) : Exn + TranslatedQuery :=
  match find_Table ast with
  | None => raise NoTableSpecified
  | Some table_node =>
      let table_name := name table_node in
      match get_table table_name (catalog self) with
      | None => raise (TableNotFound table_name)
      | Some semantic_table => translate_table table_name semantic_table ast
      end
  end.

(** Lines 85 to 129. *)
Definition translate (self : BSLConnection) (query : string) : Exn + TranslatedQuery :=
  ast ← parse_one query;
  translate_ast self ast.

(** *** Execution and delivery: lines 131 to 146 of [handle_query] *)

(** What the handler does to its collaborators, in order.  Log lines are
    left out.
    - [Executed t g m]: the query on table [t] grouped by [g] and
      aggregating [m] was built and its [execute] called (lines 132, 137);
    - [Delivered batch]: [send_reader] passed the batch to the callback;
    - [Failed msg]: [callback(None, None, msg)] (line 145). *)
Inductive Event : Type :=
  | Executed (table_name : string) (group_by_cols meas : list string)
  | Delivered (batch : Batch)
  | Failed (msg : string).

(** How a call of [handle_query] ends: what it did, and the exception it
    leaves with ([raise] on line 146), if any. *)
Record Outcome : Type := {
  trace : list Event;
  raised : option Exn;
}.

(** Lines 131 to 140. *)
Definition run_query (tq : TranslatedQuery) : list Event * (Exn + unit) :=
  let call := Executed (tq_table_name tq) (tq_group_by_cols tq) (tq_measures tq) in
  match execute (tq_semantic_table tq) (tq_group_by_cols tq) (tq_measures tq) with
  | inl e => ([call], inl e)
  | inr batch =>
      match send_reader batch with
      | Some e => ([call], inl e)
      | None => ([call; Delivered batch], inr ())
      end
  end.

(** The [try] block, lines 82 to 140. *)
Definition try_block (self : BSLConnection) (query : string)
    : list Event * (Exn + unit) :=
  match translate self query with
  | inl e => ([], inl e)
  | inr tq => run_query tq
  end.

(** [handle_query(query, callback)].  The engine always passes its
    completion callable, so the test [if callback:] of line 144 holds. *)
Definition handle_query (self : BSLConnection) (query : string) : Outcome :=
  match try_block self query with
  | (evs, inr _) => {| trace := evs; raised := None |}
  | (evs, inl e) => {| trace := evs ++ [Failed (str e)]; raised := Some e |}
  end.

(** The engine dispatches the queries of one connection one after the
    other to the same handler object. *)
Definition handle_queries (self : BSLConnection) (queries : list string)
    : list Outcome :=
  handle_query self <$> queries.

(** What reached the callback. *)
Definition is_delivery (ev : Event) : bool :=
  match ev with
  | Executed _ _ _ => false
  | Delivered _ => true
  | Failed _ => true
  end.

Definition delivered (o : Outcome) : list Event :=
  filter (λ ev, is_delivery ev = true) (trace o).

Definition is_execution (ev : Event) : bool :=
  match ev with
  | Executed _ _ _ => true
  | _ => false
  end.

(** The calls of [execute] made during a call of the handler. *)
Definition executions (o : Outcome) : list Event :=
  filter (λ ev, is_execution ev = true) (trace o).

(** ** The server *)

Record BSLPostgresServer : Type := {
  srv_catalog : BSLSemanticCatalog;
  srv_host : string;
  srv_port : Z;
  srv_user : option string;
  srv_password : option string;
}.

(** [BSLPostgresServer.__init__]; [catalog or BSLSemanticCatalog()]. *)
Definition init (host : string) (port : Z) (username password : option string)
    (catalog : option BSLSemanticCatalog) : BSLPostgresServer :=
  {| srv_catalog := default new_catalog catalog;
     srv_host := host;
     srv_port := port;
     srv_user := username;
     srv_password := password |}.

(** [self.catalog.register_table(name, semantic_table)] *)
Definition register_semantic_table (name : string) (semantic_table : SemanticTable)
    (self : BSLPostgresServer) : BSLPostgresServer :=
  {| srv_catalog := register_table name semantic_table (srv_catalog self);
     srv_host := srv_host self;
     srv_port := srv_port self;
     srv_user := srv_user self;
     srv_password := srv_password self |}.

(** [serve]: [BSLConnection.catalog = self.catalog]; nothing else of the
    server reaches the connection class. *)
Definition serve (self : BSLPostgresServer) : BSLConnection :=
  {| catalog := srv_catalog self |}.

(** ** The tables of [example_usage.py] *)

Definition flights_table (run : list string -> list string -> Exn + Batch)
    : SemanticTable :=
  {| dimensions := ["origin"; "destination"; "route"];
     measures := ["total_passengers"; "avg_delay"; "total_distance"; "flight_count"];
     execute := run |}.

Definition sales_table (run : list string -> list string -> Exn + Batch)
    : SemanticTable :=
  {| dimensions := ["product"; "region"];
     measures := ["total_sales"; "total_units"; "avg_price"];
     execute := run |}.

(** The catalog after the registrations of [main]. *)
Definition example_catalog (run : list string -> list string -> Exn + Batch)
    : BSLSemanticCatalog :=
  register_table "sales" (sales_table run)
    (register_table "flights" (flights_table run) new_catalog).

Definition example_connection (run : list string -> list string -> Exn + Batch)
    : BSLConnection :=
  {| catalog := example_catalog run |}.

(** A table in which [region] is declared both as a dimension and as a
    measure. *)
Definition overlapping_table (run : list string -> list string -> Exn + Batch)
    : SemanticTable :=
  {| dimensions := ["product"; "region"];
     measures := ["region"; "total_units"];
     execute := run |}.


(** ** The catalog with its key order *)

(** The items of the dict [self.tables] in key order.  A Python dict keeps
    its keys in the order in which they were first inserted and holds each
    key once. *)

(** [d[k] = v]: the value of a key that is present is replaced where it
    stands; a new key goes last. *)
Fixpoint dict_setitem (k : string) (v : SemanticTable)
    (d : list (string * SemanticTable)) : list (string * SemanticTable) :=
  match d with
  | [] => [(k, v)]
  | (k', v') :: d' =>
      if decide (k' = k) then (k', v) :: d' else (k', v') :: dict_setitem k v d'
  end.

(** [d.get(k)] *)
Fixpoint dict_get (k : string) (d : list (string * SemanticTable))
    : option SemanticTable :=
  match d with
  | [] => None
  | (k', v') :: d' => if decide (k' = k) then Some v' else dict_get k d'
  end.

(** [BSLSemanticCatalog] once more, as the items of [self.tables] in key
    order; [register_table], [get_table] and [list_tables] on it. *)
Record OrderedCatalog : Type := {
  items : list (string * SemanticTable);
}.

Definition new_ordered_catalog : OrderedCatalog := {| items := [] |}.

Definition register_table_ordered (name : string) (semantic_table : SemanticTable)
    (self : OrderedCatalog) : OrderedCatalog :=
  {| items := dict_setitem name semantic_table (items self) |}.

Definition get_table_ordered (name : string) (self : OrderedCatalog)
    : option SemanticTable :=
  dict_get name (items self).

(** [list(self.tables.keys())] *)
Definition list_tables (self : OrderedCatalog) : list string :=
  (items self).*1.

(** The catalog of lookups that an ordered catalog stands for. *)
Definition catalog_of (self : OrderedCatalog) : BSLSemanticCatalog :=
  {| tables := list_to_map (items self) |}.

(** The loop of [main], lines 86 to 88 of [example_usage.py]: the tables
    are registered one after the other. *)
Definition register_all (regs : list (string * SemanticTable))
    (self : OrderedCatalog) : OrderedCatalog :=
  foldl (λ c r, register_table_ordered r.1 r.2 c) self regs.

(** The last table given for a name in a run of registrations. *)
Definition last_registered (name : string) (regs : list (string * SemanticTable))
    : option SemanticTable :=
  snd <$> last (filter (λ r, r.1 = name) regs).

(** A column the table can answer: a dimension or a measure. *)
Definition known (semantic_table : SemanticTable) (col : string) : Prop :=
  col ∈ dimensions semantic_table ∨ col ∈ measures semantic_table.

(** ** Properties *)

(** *** The classification loop *)

Lemma classify_inr st t cols dims meas d m :
  classify st t cols dims meas = inr (d, m) →
  d = dims ++ filter (λ c, c ∈ dimensions st) cols ∧
  m = meas ++ filter (λ c, ¬ (c ∈ dimensions st) ∧ c ∈ measures st) cols ∧
  Forall (known st) cols.
Proof.
  revert dims meas.
  induction cols as [|col rest IH]; intros dims meas Hc; simpl in Hc.
  - inversion Hc; subst. by rewrite !app_nil_r.
  - case_bool_decide as Hd.
    + apply IH in Hc as (-> & -> & Hk).
      rewrite filter_cons_True by done.
      rewrite (filter_cons_False _ col) by tauto.
      rewrite <- app_assoc. split_and!; [done..|].
      constructor; [by left | done].
    + case_bool_decide as Hm; [|discriminate].
      apply IH in Hc as (-> & -> & Hk).
      rewrite filter_cons_False by done.
      rewrite (filter_cons_True _ col) by tauto.
      rewrite <- app_assoc. split_and!; [done..|].
      constructor; [by right | done].
Qed.


Lemma classify_first_unknown st t pre col post dims meas :
  Forall (known st) pre → ¬ known st col →
  classify st t (pre ++ col :: post) dims meas = inl (ColumnNotFound col t).
Proof.
  intros Hk Hcol. revert dims meas.
  induction Hk as [|c rest Hc _ IH]; intros dims meas; simpl.
  - unfold known in Hcol.
    rewrite !bool_decide_eq_false_2 by tauto. done.
  - case_bool_decide as Hd; [apply IH|].
    case_bool_decide as Hm; [apply IH|].
    destruct Hc; contradiction.
Qed.

Lemma first_unknown st cols :
  Exists (λ c, ¬ known st c) cols →
  ∃ pre col post,
    cols = pre ++ col :: post ∧ Forall (known st) pre ∧ ¬ known st col.
Proof.
  induction cols as [|c rest IH]; intros Hex.
  - inversion Hex.
  - destruct (decide (c ∈ dimensions st ∨ c ∈ measures st)) as [Hc|Hc].
    + inversion Hex as [? ? Hbad|? ? Hrest]; subst; [contradiction|].
      destruct (IH Hrest) as (pre & col & post & -> & Hpre & Hcol).
      exists (c :: pre), col, post. split_and!; [done| |done].
      by constructor.
    + exists [], c, rest. split_and!; [done|constructor|done].
Qed.

(** *** What a successful translation looks like *)

Lemma translate_table_inr t st ast tq :
  translate_table t st ast = inr tq →
  tq_table_name tq = t ∧ tq_semantic_table tq = st ∧
  tq_dimensions tq = filter (λ c, c ∈ dimensions st) (select_cols ast) ∧
  tq_measures tq =
    filter (λ c, ¬ (c ∈ dimensions st) ∧ c ∈ measures st) (select_cols ast) ∧
  tq_group_by_cols tq = infer_group_by (explicit_group_by ast) (tq_dimensions tq).
Proof.
  unfold translate_table. intros H.
  destruct (classify st t (select_cols ast) [] []) as [e|[d m]] eqn:Hc;
    simpl in H; [discriminate|].
  apply classify_inr in Hc as (-> & -> & _).
  inversion H; subst; simpl. done.
Qed.

Lemma translate_ast_inr self ast tq :
  translate_ast self ast = inr tq →
  ∃ table_node,
    find_Table ast = Some table_node ∧
    tq_table_name tq = name table_node ∧
    get_table (name table_node) (catalog self) = Some (tq_semantic_table tq) ∧
    translate_table (name table_node) (tq_semantic_table tq) ast = inr tq.
Proof.
  unfold translate_ast. intros H.
  destruct (find_Table ast) as [table_node|]; [|discriminate].
  destruct (get_table (name table_node) (catalog self)) as [st|] eqn:Hg;
    [|discriminate].
  pose proof (translate_table_inr _ _ _ _ H) as (Ht & Hst & _).
  exists table_node. by rewrite Ht, Hst.
Qed.

Lemma translate_parsed self query ast :
  parse_one query = inr ast →
  translate self query = translate_ast self ast.
Proof. unfold translate. by intros ->. Qed.

(** *** Grouping *)

Lemma filter_none (P : string → Prop) `{!∀ c, Decision (P c)} (l : list string) :
  (∀ c, c ∈ l → ¬ P c) → filter P l = [].
Proof.
  induction l as [|c l IH]; intros Hnone; [done|].
  rewrite filter_cons_False by (apply Hnone; constructor).
  apply IH. intros c' Hc'. apply Hnone. by constructor.
Qed.

(** GROUP BY items that are [Identifier] nodes are taken as they are. *)
Lemma explicit_group_by_identifiers ast names :
  group ast = Some (Identifier <$> names) →
  explicit_group_by ast = names.
Proof.
  unfold explicit_group_by. intros ->.
  induction names as [|n names IH]; [done|].
  rewrite fmap_cons, filter_cons_True by done.
  rewrite fmap_cons. simpl. by rewrite IH.
Qed.

Lemma infer_group_by_nil dims : infer_group_by [] dims = dims.
Proof. by destruct dims. Qed.

(** C1. Without a GROUP BY clause the grouping columns of a translated
    statement are the selected dimensions: when the select list holds a
    dimension of the resolved table, [groupBy] is the list of selected
    dimension names in select order, repetitions kept; when it holds none,
    [groupBy] is empty.  On a catalog where [flights] is the table of the
    example, "SELECT origin, total_passengers FROM flights" translates to
    table flights, dimensions [origin], measures [total_passengers] and
    groupBy [origin]. *)
Theorem group_by_inferred_from_dimensions :
  (∀ self query ast tq,
     parse_one query = inr ast →
     group ast = None →
     translate self query = inr tq →
     ((∃ col, col ∈ select_cols ast ∧ col ∈ dimensions (tq_semantic_table tq)) →
        tq_group_by_cols tq =
          filter (λ c, c ∈ dimensions (tq_semantic_table tq)) (select_cols ast) ∧
        tq_group_by_cols tq = tq_dimensions tq ∧
        tq_group_by_cols tq ≠ []) ∧
     ((∀ col, col ∈ select_cols ast → col ∉ dimensions (tq_semantic_table tq)) →
        tq_group_by_cols tq = []))
  ∧
  (∀ self run,
     parse_one "SELECT origin, total_passengers FROM flights"
       = inr ast_origin_passengers →
     get_table "flights" (catalog self) = Some (flights_table run) →
     translate self "SELECT origin, total_passengers FROM flights" =
       inr {| tq_table_name := "flights";
              tq_semantic_table := flights_table run;
              tq_dimensions := ["origin"];
              tq_measures := ["total_passengers"];
              tq_group_by_cols := ["origin"] |}).
Proof.
  split.
  - intros self query ast tq Hp Hg Ht.
    rewrite (translate_parsed _ _ _ Hp) in Ht.
    apply translate_ast_inr in Ht as (table_node & _ & _ & _ & Ht).
    apply translate_table_inr in Ht as (_ & _ & Hd & _ & Hgb).
    unfold explicit_group_by in Hgb. rewrite Hg in Hgb.
    rewrite infer_group_by_nil in Hgb.
    split.
    + intros (col & Hsel & Hdim). rewrite Hgb, Hd. split_and!; [done..|].
      intros Hnil.
      assert (col ∈ filter (λ c, c ∈ dimensions (tq_semantic_table tq))
                      (select_cols ast)) as Hin
        by (apply list_elem_of_filter; done).
      rewrite Hnil in Hin. by apply not_elem_of_nil in Hin.
    + intros Hnone. rewrite Hgb, Hd. by apply filter_none.
  - intros self run Hp Hg.
    rewrite (translate_parsed _ _ _ Hp). unfold translate_ast. simpl.
    rewrite Hg. reflexivity.
Qed.

(** *** Well-formedness of the result *)

(** C9. A successful translation yields dimensions and measures of the
    table the catalog holds under the statement's table name, each list
    being a subsequence of the select list in select order. *)
Theorem translated_query_well_formed self query ast tq :
  parse_one query = inr ast →
  translate self query = inr tq →
  get_table (tq_table_name tq) (catalog self) = Some (tq_semantic_table tq) ∧
  Forall (λ c, c ∈ dimensions (tq_semantic_table tq)) (tq_dimensions tq) ∧
  Forall (λ c, c ∈ measures (tq_semantic_table tq)) (tq_measures tq) ∧
  tq_dimensions tq `sublist_of` select_cols ast ∧
  tq_measures tq `sublist_of` select_cols ast.
Proof.
  intros Hp Ht.
  rewrite (translate_parsed _ _ _ Hp) in Ht.
  apply translate_ast_inr in Ht as (table_node & _ & Hn & Hg & Ht).
  apply translate_table_inr in Ht as (_ & _ & -> & -> & _).
  rewrite Hn. split_and!.
  - done.
  - apply Forall_forall. intros c Hc. by apply list_elem_of_filter in Hc as [? _].
  - apply Forall_forall. intros c Hc.
    by apply list_elem_of_filter in Hc as [[_ ?] _].
  - apply sublist_filter.
  - apply sublist_filter.
Qed.

(** *** Failing translations *)

Lemma handle_query_translate_error self query e :
  translate self query = inl e →
  handle_query self query = {| trace := [Failed (str e)]; raised := Some e |}.
Proof. unfold handle_query, try_block. by intros ->. Qed.

(** C4. When the table is resolved and the select list holds a column that
    is neither a dimension nor a measure of it, translation stops at the
    first such column with [ColumnNotFound]: no translated query exists,
    the handler reports that error and [execute] is not called. *)
Theorem column_not_found_aborts self query ast table_node st :
  parse_one query = inr ast →
  find_Table ast = Some table_node →
  get_table (name table_node) (catalog self) = Some st →
  Exists (λ c, ¬ known st c) (select_cols ast) →
  ∃ pre col post,
    select_cols ast = pre ++ col :: post ∧
    Forall (known st) pre ∧ ¬ known st col ∧
    translate self query = inl (ColumnNotFound col (name table_node)) ∧
    handle_query self query =
      {| trace := [Failed (str (ColumnNotFound col (name table_node)))];
         raised := Some (ColumnNotFound col (name table_node)) |} ∧
    executions (handle_query self query) = [].
Proof.
  intros Hp Hf Hg Hex.
  destruct (first_unknown _ _ Hex) as (pre & col & post & Hsel & Hpre & Hcol).
  exists pre, col, post.
  assert (translate self query = inl (ColumnNotFound col (name table_node)))
    as Ht.
  { rewrite (translate_parsed _ _ _ Hp). unfold translate_ast.
    rewrite Hf, Hg. unfold translate_table. rewrite Hsel.
    by rewrite classify_first_unknown. }
  split_and!; [done..| |].
  - by apply handle_query_translate_error.
  - by rewrite (handle_query_translate_error _ _ _ Ht).
Qed.

(** C5. A statement without a table reference fails with
    [NoTableSpecified], a statement whose table the catalog does not hold
    fails with [TableNotFound]; either way no translated query exists, the
    handler reports the error and [execute] is not called. *)
Theorem missing_table_aborts self query ast :
  parse_one query = inr ast →
  (find_Table ast = None →
     translate self query = inl NoTableSpecified ∧
     handle_query self query =
       {| trace := [Failed "No table specified in query"];
          raised := Some NoTableSpecified |} ∧
     executions (handle_query self query) = [])
  ∧
  (∀ table_node,
     find_Table ast = Some table_node →
     get_table (name table_node) (catalog self) = None →
     translate self query = inl (TableNotFound (name table_node)) ∧
     handle_query self query =
       {| trace := [Failed (str (TableNotFound (name table_node)))];
          raised := Some (TableNotFound (name table_node)) |} ∧
     executions (handle_query self query) = []).
Proof.
  intros Hp. split.
  - intros Hf.
    assert (translate self query = inl NoTableSpecified) as Ht.
    { rewrite (translate_parsed _ _ _ Hp). unfold translate_ast. by rewrite Hf. }
    by rewrite (handle_query_translate_error _ _ _ Ht).
  - intros table_node Hf Hg.
    assert (translate self query = inl (TableNotFound (name table_node))) as Ht.
    { rewrite (translate_parsed _ _ _ Hp). unfold translate_ast.
      by rewrite Hf, Hg. }
    by rewrite (handle_query_translate_error _ _ _ Ht).
Qed.

(** *** The catalog *)

(** C6. Registering [d1] and then [d2] under one name leaves the catalog
    that registering [d2] alone gives; looking the name up returns [d2];
    and a statement on that table is translated from [d2] and the
    statement alone, whatever [d1] was.  [register_table] is total: it has
    no error result. *)
Theorem register_last_write_wins (c : BSLSemanticCatalog) (n : string)
    (d1 d2 : SemanticTable) :
  register_table n d2 (register_table n d1 c) = register_table n d2 c ∧
  get_table n (register_table n d2 (register_table n d1 c)) = Some d2 ∧
  (∀ srv,
     get_table n (catalog (serve (register_semantic_table n d2
                                    (register_semantic_table n d1 srv))))
       = Some d2) ∧
  (∀ query ast table_node,
     parse_one query = inr ast →
     find_Table ast = Some table_node →
     name table_node = n →
     translate {| catalog := register_table n d2 (register_table n d1 c) |} query
       = translate_table n d2 ast).
Proof.
  assert (∀ c', get_table n (register_table n d2 c') = Some d2) as Hget.
  { intros c'. unfold get_table, register_table. simpl. apply lookup_insert_eq. }
  split_and!.
  - unfold register_table. simpl. by rewrite insert_insert_eq.
  - apply Hget.
  - intros srv. simpl. apply Hget.
  - intros query ast table_node Hp Hf Hn.
    rewrite (translate_parsed _ _ _ Hp). unfold translate_ast.
    rewrite Hf, Hn. simpl. by rewrite Hget.
Qed.

(** *** The select list *)




(** C2. The statement "SELECT region, total_units FROM sales GROUP BY
    product" names [product] as its only grouping column, yet it is
    translated with groupBy [region]: the items of a parsed GROUP BY list
    are [Column] nodes, the loop of lines 111 to 113 keeps [Identifier]
    nodes only, and the grouping then falls back on the selected
    dimensions.  In general, a GROUP BY list without [Identifier] nodes has
    no effect on the translation.  "SELECT region, total_units FROM sales
    GROUP BY region" does get groupBy [region], by the same fallback. *)
Theorem group_by_column_items_dropped :
  (∀ self query ast expressions tq,
     parse_one query = inr ast →
     group ast = Some expressions →
     Forall (λ e, isinstance_Identifier e = false) expressions →
     translate self query = inr tq →
     tq_group_by_cols tq = tq_dimensions tq)
  ∧
  (∀ self run,
     parse_one "SELECT region, total_units FROM sales GROUP BY product"
       = inr ast_region_units_by_product →
     get_table "sales" (catalog self) = Some (sales_table run) →
     translate self "SELECT region, total_units FROM sales GROUP BY product" =
       inr {| tq_table_name := "sales";
              tq_semantic_table := sales_table run;
              tq_dimensions := ["region"];
              tq_measures := ["total_units"];
              tq_group_by_cols := ["region"] |})
  ∧
  (∀ self run,
     parse_one "SELECT region, total_units FROM sales GROUP BY region"
       = inr ast_region_units_by_region →
     get_table "sales" (catalog self) = Some (sales_table run) →
     translate self "SELECT region, total_units FROM sales GROUP BY region" =
       inr {| tq_table_name := "sales";
              tq_semantic_table := sales_table run;
              tq_dimensions := ["region"];
              tq_measures := ["total_units"];
              tq_group_by_cols := ["region"] |}).
Proof.
  split_and!.
  - intros self query ast expressions tq Hp Hg Hall Ht.
    rewrite (translate_parsed _ _ _ Hp) in Ht.
    apply translate_ast_inr in Ht as (table_node & _ & _ & _ & Ht).
    apply translate_table_inr in Ht as (_ & _ & _ & _ & ->).
    unfold explicit_group_by. rewrite Hg.
    replace (filter (λ e, isinstance_Identifier e = true) expressions)
      with (@nil Expression); [apply infer_group_by_nil|].
    symmetry. clear Hg. induction Hall as [|e l He _ IH]; [done|].
    rewrite filter_cons_False by (rewrite He; discriminate). done.
  - intros self run Hp Hg.
    rewrite (translate_parsed _ _ _ Hp). unfold translate_ast. simpl.
    rewrite Hg. reflexivity.
  - intros self run Hp Hg.
    rewrite (translate_parsed _ _ _ Hp). unfold translate_ast. simpl.
    rewrite Hg. reflexivity.
Qed.

(** *** Delivery *)

Lemma run_query_cases tq :
  (∃ batch,
     execute (tq_semantic_table tq) (tq_group_by_cols tq) (tq_measures tq)
       = inr batch ∧
     send_reader batch = None ∧
     run_query tq =
       ([Executed (tq_table_name tq) (tq_group_by_cols tq) (tq_measures tq);
         Delivered batch], inr ()))
  ∨
  (∃ e,
     run_query tq =
       ([Executed (tq_table_name tq) (tq_group_by_cols tq) (tq_measures tq)],
        inl e)).
Proof.
  unfold run_query.
  destruct (execute _ _ _) as [e|batch]; [right; eauto|].
  destruct (send_reader batch) as [e|] eqn:Hs; [right; eauto|].
  left. eauto.
Qed.

(** A [try] block that raises has delivered nothing. *)
Lemma try_block_raises self query evs e :
  try_block self query = (evs, inl e) →
  filter (λ ev, is_delivery ev = true) evs = [].
Proof.
  unfold try_block.
  destruct (translate self query) as [e'|tq]; [by intros [= <- _]|].
  destruct (run_query_cases tq) as [(batch & _ & _ & ->)|(e' & ->)];
    [discriminate|].
  by intros [= <- _].
Qed.

Lemma handle_query_success self query tq batch :
  translate self query = inr tq →
  execute (tq_semantic_table tq) (tq_group_by_cols tq) (tq_measures tq)
    = inr batch →
  send_reader batch = None →
  handle_query self query =
    {| trace :=
         [Executed (tq_table_name tq) (tq_group_by_cols tq) (tq_measures tq);
          Delivered batch];
       raised := None |}.
Proof.
  intros Ht He Hs. unfold handle_query, try_block, run_query.
  by rewrite Ht, He, Hs.
Qed.

(** C7. Every call of the handler ends in exactly one delivery: either
    one batch, handed over by [send_reader] with its schema, and no error
    message, or one error message and no batch. *)
Theorem exactly_one_delivery self query :
  (∃ batch,
     delivered (handle_query self query) = [Delivered batch] ∧
     raised (handle_query self query) = None)
  ∨
  (∃ e,
     delivered (handle_query self query) = [Failed (str e)] ∧
     raised (handle_query self query) = Some e).
Proof.
  unfold handle_query.
  destruct (try_block self query) as [evs [e|[]]] eqn:Hb.
  - right. exists e. unfold delivered. simpl.
    rewrite filter_app, (try_block_raises _ _ _ _ Hb). done.
  - left. unfold try_block in Hb.
    destruct (translate self query) as [e'|tq]; [discriminate|].
    destruct (run_query_cases tq) as [(batch & _ & _ & Hr)|(e' & Hr)];
      rewrite Hr in Hb; [|discriminate].
    injection Hb as <-. by exists batch.
Qed.

(** A failing query is reported once through the callback, nothing else
    is delivered, and the handler then leaves with the exception.  The
    handler keeps no state of its own: a later query that translates and
    executes is answered with its batch by the same handler.  What the
    engine makes of the connection when the exception reaches it is not
    decided here. *)
Theorem failed_query_reported_and_reraised self query evs e :
  try_block self query = (evs, inl e) →
  handle_query self query = {| trace := evs ++ [Failed (str e)]; raised := Some e |} ∧
  delivered (handle_query self query) = [Failed (str e)] ∧
  (∀ query' tq batch,
     translate self query' = inr tq →
     execute (tq_semantic_table tq) (tq_group_by_cols tq) (tq_measures tq)
       = inr batch →
     send_reader batch = None →
     handle_queries self [query; query'] =
       [ {| trace := evs ++ [Failed (str e)]; raised := Some e |};
         {| trace :=
              [Executed (tq_table_name tq) (tq_group_by_cols tq) (tq_measures tq);
               Delivered batch];
            raised := None |} ]).
Proof.
  intros Hb.
  assert (handle_query self query =
            {| trace := evs ++ [Failed (str e)]; raised := Some e |}) as Hq.
  { unfold handle_query. by rewrite Hb. }
  split_and!.
  - done.
  - rewrite Hq. unfold delivered. simpl.
    rewrite filter_app, (try_block_raises _ _ _ _ Hb). done.
  - intros query' tq batch Ht He Hs. unfold handle_queries.
    rewrite !fmap_cons, Hq. by rewrite (handle_query_success _ _ _ _ Ht He Hs).
Qed.

(** *** Authentication *)

(** C10. Authentication accepts the pair user "user", password "secret"
    and no other, whatever the host and the database, and whatever user
    name and password the server was created with. *)
Theorem auth_fixed_credentials (srv : BSLPostgresServer)
    (user password host : string) (database : option string) :
  (handle_auth (serve srv) user password host database = true
     ↔ user = "user" ∧ password = "secret") ∧
  (∀ host' port' username' password' catalog' host'' database'',
     handle_auth (serve (init host' port' username' password' catalog'))
       user password host'' database''
     = handle_auth (serve srv) user password host database).
Proof.
  split; [|done].
  unfold handle_auth. rewrite andb_true_iff, !bool_decide_eq_true. done.
Qed.

(** ** Further properties of the translation *)

Lemma translate_table_known t st ast tq :
  translate_table t st ast = inr tq → Forall (known st) (select_cols ast).
Proof.
  unfold translate_table. intros H.
  destruct (classify st t (select_cols ast) [] []) as [e|[d m]] eqn:Hc;
    simpl in H; [discriminate|].
  by apply classify_inr in Hc as (_ & _ & Hk).
Qed.


Lemma filter_measures_known st cols :
  Forall (known st) cols →
  filter (λ c, ¬ (c ∈ dimensions st) ∧ c ∈ measures st) cols
  = filter (λ c, ¬ (c ∈ dimensions st)) cols.
Proof.
  induction 1 as [|c cols Hc _ IH]; [done|].
  destruct (decide (c ∈ dimensions st)) as [Hd|Hd].
  - rewrite !filter_cons_False by tauto. done.
  - rewrite !filter_cons_True by (destruct Hc; tauto). by rewrite IH.
Qed.

(** Every selected column lands in exactly one of the two lists: together
    the dimensions and the measures of a translated statement are the
    select list, up to the order between the two groups. *)
Theorem selected_columns_partitioned self ast tq :
  translate_ast self ast = inr tq →
  tq_dimensions tq ++ tq_measures tq ≡ₚ select_cols ast ∧
  length (tq_dimensions tq) + length (tq_measures tq) = length (selects ast).
Proof.
  intros Ht.
  apply translate_ast_inr in Ht as (table_node & _ & _ & _ & Ht).
  pose proof (translate_table_known _ _ _ _ Ht) as Hk.
  apply translate_table_inr in Ht as (_ & _ & Hd & Hm & _).
  rewrite (filter_measures_known _ _ Hk) in Hm.
  assert (tq_dimensions tq ++ tq_measures tq ≡ₚ select_cols ast) as Hp.
  { rewrite Hd, Hm. apply filter_app_complement. }
  split; [done|].
  rewrite <- length_app, Hp. unfold select_cols. apply length_fmap.
Qed.

(** The dimensions are tested first: a selected name that the table lists
    both as a dimension and as a measure is taken as a dimension, every time
    it is selected, and never reaches the measures. *)
Theorem dimension_takes_precedence self ast tq col :
  translate_ast self ast = inr tq →
  col ∈ select_cols ast →
  col ∈ dimensions (tq_semantic_table tq) →
  col ∈ tq_dimensions tq ∧ col ∉ tq_measures tq.
Proof.
  intros Ht Hsel Hdim.
  apply translate_ast_inr in Ht as (table_node & _ & _ & _ & Ht).
  apply translate_table_inr in Ht as (_ & _ & -> & -> & _).
  split.
  - by apply list_elem_of_filter.
  - intros Hin. apply list_elem_of_filter in Hin as [[Hnd _] _]. done.
Qed.

Lemma infer_group_by_cons g gs dims : infer_group_by (g :: gs) dims = g :: gs.
Proof. done. Qed.

(** The grouping columns are the names of the [Identifier] items of the
    GROUP BY list, in their order, as soon as there is one such item; they
    are then used as they stand, whether or not the table has them as
    dimensions and whatever was selected.  Items of other classes are
    skipped.  Only when no item is kept do the selected dimensions take
    their place. *)
Theorem group_by_explicit_or_inferred self ast tq :
  translate_ast self ast = inr tq →
  (explicit_group_by ast ≠ [] → tq_group_by_cols tq = explicit_group_by ast) ∧
  (explicit_group_by ast = [] → tq_group_by_cols tq = tq_dimensions tq) ∧
  (∀ expressions,
     group ast = Some expressions →
     explicit_group_by ast `sublist_of` name <$> expressions) ∧
  (∀ names,
     names ≠ [] → group ast = Some (Identifier <$> names) →
     tq_group_by_cols tq = names).
Proof.
  intros Ht.
  apply translate_ast_inr in Ht as (table_node & _ & _ & _ & Ht).
  apply translate_table_inr in Ht as (_ & _ & _ & _ & Hg).
  split_and!.
  - intros Hne. rewrite Hg.
    destruct (explicit_group_by ast) as [|g gs]; [done|].
    apply infer_group_by_cons.
  - intros Hnil. rewrite Hg, Hnil. apply infer_group_by_nil.
  - intros expressions He. unfold explicit_group_by. rewrite He.
    apply fmap_sublist, sublist_filter.
  - intros names Hne Hgr. rewrite Hg.
    rewrite (explicit_group_by_identifiers _ _ Hgr).
    destruct names as [|g gs]; [done|]. apply infer_group_by_cons.
Qed.


(** ** Further properties of the handler *)

(** The backend is called at most once for a query, and exactly when the
    statement was translated: then with the table name, the grouping
    columns and the measures of the translation; never for a statement that
    failed to parse or to translate. *)
Theorem execute_called_once_when_translated self query :
  executions (handle_query self query) =
    match translate self query with
    | inr tq =>
        [Executed (tq_table_name tq) (tq_group_by_cols tq) (tq_measures tq)]
    | inl _ => []
    end.
Proof.
  unfold executions, handle_query, try_block.
  destruct (translate self query) as [e|tq]; [done|].
  destruct (run_query_cases tq) as [(batch & _ & _ & ->)|(e & ->)]; done.
Qed.

(** What a collaborator raises is relayed as it is: the message of the
    parser's exception when the text does not parse (the catalog is not
    consulted), the message of the backend's exception when [execute]
    raises, after that single call, and the message of the engine's
    exception when the batch cannot be handed over.  In each case the
    callback gets the message and no batch, and the exception leaves the
    handler. *)
Theorem collaborator_errors_relayed self query :
  (∀ e, parse_one query = inl e →
     handle_query self query = {| trace := [Failed (str e)]; raised := Some e |})
  ∧
  (∀ tq e,
     translate self query = inr tq →
     execute (tq_semantic_table tq) (tq_group_by_cols tq) (tq_measures tq)
       = inl e →
     handle_query self query =
       {| trace :=
            [Executed (tq_table_name tq) (tq_group_by_cols tq) (tq_measures tq);
             Failed (str e)];
          raised := Some e |})
  ∧
  (∀ tq batch e,
     translate self query = inr tq →
     execute (tq_semantic_table tq) (tq_group_by_cols tq) (tq_measures tq)
       = inr batch →
     send_reader batch = Some e →
     handle_query self query =
       {| trace :=
            [Executed (tq_table_name tq) (tq_group_by_cols tq) (tq_measures tq);
             Failed (str e)];
          raised := Some e |}).
Proof.
  split_and!.
  - intros e Hp. apply handle_query_translate_error.
    unfold translate. by rewrite Hp.
  - intros tq e Ht He. unfold handle_query, try_block, run_query.
    by rewrite Ht, He.
  - intros tq batch e Ht He Hs. unfold handle_query, try_block, run_query.
    by rewrite Ht, He, Hs.
Qed.

(** The handler returns without an exception exactly when the statement
    was translated, the backend returned a batch and the engine took it;
    what it did is then the one call of the backend followed by the delivery
    of that batch. *)
Theorem handle_query_returns_iff self query :
  raised (handle_query self query) = None ↔
  ∃ tq batch,
    translate self query = inr tq ∧
    execute (tq_semantic_table tq) (tq_group_by_cols tq) (tq_measures tq)
      = inr batch ∧
    send_reader batch = None ∧
    trace (handle_query self query) =
      [Executed (tq_table_name tq) (tq_group_by_cols tq) (tq_measures tq);
       Delivered batch].
Proof.
  split.
  - unfold handle_query, try_block.
    destruct (translate self query) as [e|tq] eqn:Ht; [discriminate|].
    destruct (run_query_cases tq) as [(batch & He & Hs & ->)|(e & ->)];
      [|discriminate].
    intros _. by exists tq, batch.
  - intros (tq & batch & Ht & He & Hs & _).
    by rewrite (handle_query_success _ _ _ _ Ht He Hs).
Qed.

Lemma translate_ast_same_entry self1 self2 ast table_node :
  find_Table ast = Some table_node →
  get_table (name table_node) (catalog self1)
    = get_table (name table_node) (catalog self2) →
  translate_ast self1 ast = translate_ast self2 ast.
Proof. unfold translate_ast. by intros -> ->. Qed.

(** A query is answered from the catalog entry of its own table alone:
    two connections whose catalogs agree on that name handle the query
    alike, and registering or replacing a table under another name changes
    nothing for it. *)
Theorem other_tables_do_not_matter self1 self2 query ast table_node :
  parse_one query = inr ast →
  find_Table ast = Some table_node →
  (get_table (name table_node) (catalog self1)
     = get_table (name table_node) (catalog self2) →
   handle_query self1 query = handle_query self2 query)
  ∧
  (∀ n st,
     n ≠ name table_node →
     handle_query {| catalog := register_table n st (catalog self1) |} query
       = handle_query self1 query).
Proof.
  intros Hp Hf.
  assert (∀ s1 s2,
            get_table (name table_node) (catalog s1)
              = get_table (name table_node) (catalog s2) →
            handle_query s1 query = handle_query s2 query) as Hsame.
  { intros s1 s2 Hg. unfold handle_query, try_block.
    rewrite !(translate_parsed _ _ _ Hp).
    by rewrite (translate_ast_same_entry s1 s2 _ _ Hf Hg). }
  split; [apply Hsame|].
  intros n st Hne. apply Hsame. simpl.
  unfold get_table, register_table. simpl. by apply lookup_insert_ne.
Qed.

(** ** Further properties of the server *)

(** A server created without a catalog starts with an empty one: until a
    table is registered, every statement that names a table is answered
    with the table-not-found message, whatever it selects. *)
Theorem server_without_tables host port username password query ast table_node :
  parse_one query = inr ast →
  find_Table ast = Some table_node →
  handle_query (serve (init host port username password None)) query =
    {| trace := [Failed (str (TableNotFound (name table_node)))];
       raised := Some (TableNotFound (name table_node)) |}.
Proof.
  intros Hp Hf. apply handle_query_translate_error.
  rewrite (translate_parsed _ _ _ Hp). unfold translate_ast. rewrite Hf.
  simpl. unfold get_table. simpl. by rewrite lookup_empty.
Qed.

(** Registering a table on the server makes it the table that the
    connections made by [serve] find under that name; the tables under
    other names, a catalog passed to the constructor included, stay as they
    are, and so do host, port, user name and password. *)
Theorem registered_table_served srv n st :
  get_table n (catalog (serve (register_semantic_table n st srv))) = Some st ∧
  (∀ k, k ≠ n →
     get_table k (catalog (serve (register_semantic_table n st srv)))
       = get_table k (catalog (serve srv))) ∧
  (∀ host port username password c k, k ≠ n →
     get_table k (catalog (serve (register_semantic_table n st
                                    (init host port username password (Some c)))))
       = get_table k c) ∧
  (srv_host (register_semantic_table n st srv),
   srv_port (register_semantic_table n st srv),
   srv_user (register_semantic_table n st srv),
   srv_password (register_semantic_table n st srv))
    = (srv_host srv, srv_port srv, srv_user srv, srv_password srv).
Proof.
  split_and!.
  - simpl. unfold get_table, register_table. simpl. apply lookup_insert_eq.
  - intros k Hk. simpl. unfold get_table, register_table. simpl.
    by apply lookup_insert_ne.
  - intros host port username password c k Hk. simpl.
    unfold get_table, register_table. simpl. by apply lookup_insert_ne.
  - done.
Qed.

(** ** The catalog with its key order *)

Lemma dict_setitem_keys k v d :
  (dict_setitem k v d).*1 = if decide (k ∈ d.*1) then d.*1 else d.*1 ++ [k].
Proof using.
  induction d as [|[k' v'] d IH].
  - cbn. case_decide as Hin; [by apply elem_of_nil in Hin | reflexivity].
  - cbn [dict_setitem]. rewrite !fmap_cons. cbn [fst].
    destruct (decide (k' = k)) as [->|Hne].
    + rewrite fmap_cons. cbn [fst].
      destruct (decide (k ∈ k :: d.*1)) as [_|Hin]; [done|].
      exfalso. apply Hin. constructor.
    + rewrite fmap_cons, IH. cbn [fst].
      destruct (decide (k ∈ d.*1)) as [Hin|Hin];
        destruct (decide (k ∈ k' :: d.*1)) as [Hin'|Hin'].
      * done.
      * exfalso. apply Hin'. by constructor.
      * apply elem_of_cons in Hin' as [->|?]; done.
      * done.
Qed.

Lemma dict_setitem_NoDup k v d : NoDup d.*1 → NoDup (dict_setitem k v d).*1.
Proof using.
  intros Hnd. rewrite dict_setitem_keys.
  destruct (decide (k ∈ d.*1)) as [Hin|Hin]; [done|].
  apply NoDup_app. split_and!; [done| |apply NoDup_singleton].
  intros x Hx Hx'. apply list_elem_of_singleton in Hx' as ->. done.
Qed.

Lemma dict_get_setitem k n v d :
  dict_get k (dict_setitem n v d) = if decide (n = k) then Some v else dict_get k d.
Proof using.
  induction d as [|[k' v'] d IH]; simpl.
  - destruct (decide (n = k)); done.
  - destruct (decide (k' = n)) as [->|Hne]; simpl.
    + destruct (decide (n = k)); done.
    + destruct (decide (k' = k)) as [->|Hne'].
      * by rewrite decide_False by done.
      * apply IH.
Qed.

Lemma dict_get_lookup k (d : list (string * SemanticTable)) :
  dict_get k d = (list_to_map d : gmap string SemanticTable) !! k.
Proof using.
  induction d as [|[k' v'] d IH]; simpl.
  - by rewrite lookup_empty.
  - destruct (decide (k' = k)) as [->|Hne].
    + by rewrite lookup_insert_eq.
    + by rewrite lookup_insert_ne.
Qed.

Lemma dict_get_is_Some k (d : list (string * SemanticTable)) :
  k ∈ d.*1 ↔ is_Some (dict_get k d).
Proof using.
  induction d as [|[k' v'] d IH]; simpl.
  - split; [by intros ?%elem_of_nil | by intros [? ?]].
  - destruct (decide (k' = k)) as [->|Hne].
    + split; [eauto | constructor].
    + rewrite elem_of_cons, IH. split; [intros [->|?]; done | by right].
Qed.

(** The ordered catalog and the catalog of lookups go together:
    registering in the one is registering in the other, and both find the
    same table under every name. *)
Theorem ordered_catalog_refines (c : OrderedCatalog) n st k :
  catalog_of (register_table_ordered n st c) = register_table n st (catalog_of c) ∧
  get_table_ordered k c = get_table k (catalog_of c) ∧
  get_table_ordered k (register_table_ordered n st c)
    = get_table k (register_table n st (catalog_of c)).
Proof using.
  assert (catalog_of (register_table_ordered n st c)
            = register_table n st (catalog_of c)) as Hreg.
  { unfold catalog_of, register_table_ordered, register_table. simpl. f_equal.
    induction (items c) as [|[k' v'] d IH]; simpl; [done|].
    destruct (decide (k' = n)) as [->|Hne]; simpl.
    - by rewrite insert_insert_eq.
    - rewrite IH. by apply insert_insert_ne. }
  split_and!.
  - done.
  - apply dict_get_lookup.
  - rewrite <- Hreg. apply dict_get_lookup.
Qed.

(** [list_tables] gives the names in the order of their first
    registration: a new name is added at the end, registering again under a
    listed name leaves the list as it is.  No name comes to be listed
    twice, and a name is listed exactly when [get_table] finds a table for
    it. *)
Theorem list_tables_insertion_order (c : OrderedCatalog) n st :
  list_tables (register_table_ordered n st c) =
    (if decide (n ∈ list_tables c) then list_tables c else list_tables c ++ [n]) ∧
  (NoDup (list_tables c) → NoDup (list_tables (register_table_ordered n st c))) ∧
  (∀ k, k ∈ list_tables c ↔ is_Some (get_table_ordered k c)).
Proof using.
  unfold list_tables, register_table_ordered, get_table_ordered. simpl.
  rewrite dict_setitem_keys. split_and!.
  - done.
  - intros Hnd. rewrite <- (dict_setitem_keys n st). by apply dict_setitem_NoDup.
  - intros k. apply dict_get_is_Some.
Qed.

Lemma register_all_cons r regs c :
  register_all (r :: regs) c = register_all regs (register_table_ordered r.1 r.2 c).
Proof using. done. Qed.

Lemma register_all_NoDup regs c :
  NoDup (list_tables c) → NoDup (list_tables (register_all regs c)).
Proof using.
  revert c. induction regs as [|r regs IH]; intros c Hc; [done|].
  rewrite register_all_cons. apply IH.
  unfold list_tables, register_table_ordered. simpl. by apply dict_setitem_NoDup.
Qed.

Lemma register_all_elem_of regs c n :
  n ∈ list_tables (register_all regs c) ↔ n ∈ list_tables c ∨ n ∈ regs.*1.
Proof using.
  clear parse_one send_reader.
  revert c. induction regs as [|r regs IH]; intros c.
  - simpl. rewrite elem_of_nil. tauto.
  - rewrite register_all_cons, IH, fmap_cons, elem_of_cons.
    unfold list_tables, register_table_ordered. simpl.
    rewrite dict_setitem_keys.
    destruct (decide (r.1 ∈ (items c).*1)) as [Hr|Hr].
    + split; [tauto | intros [?|[->|?]]; tauto].
    + rewrite elem_of_app, list_elem_of_singleton. tauto.
Qed.

Lemma register_all_get regs c n :
  get_table_ordered n (register_all regs c)
  = match last_registered n regs with
    | Some t => Some t
    | None => get_table_ordered n c
    end.
Proof using.
  revert c. induction regs as [|r regs IH]; intros c; [done|].
  rewrite register_all_cons, IH.
  unfold last_registered, get_table_ordered, register_table_ordered. simpl.
  rewrite dict_get_setitem.
  destruct (decide (r.1 = n)) as [Hr|Hr].
  - rewrite filter_cons_True by done. rewrite last_cons.
    by destruct (last (filter _ regs)).
  - rewrite filter_cons_False by done. done.
Qed.

(** After any run of registrations on a fresh catalog, [list_tables] lists
    exactly the names that were registered, each once, and [get_table]
    finds under each name the table registered last for it. *)
Theorem register_all_last_wins regs :
  NoDup (list_tables (register_all regs new_ordered_catalog)) ∧
  (∀ n, n ∈ list_tables (register_all regs new_ordered_catalog) ↔ n ∈ regs.*1) ∧
  (∀ n, get_table_ordered n (register_all regs new_ordered_catalog)
          = last_registered n regs).
Proof using.
  clear parse_one send_reader.
  split_and!.
  - apply register_all_NoDup. constructor.
  - intros n. rewrite register_all_elem_of. unfold list_tables. simpl.
    rewrite elem_of_nil. tauto.
  - intros n. rewrite register_all_get. unfold get_table_ordered. simpl.
    by destruct (last_registered n regs).
Qed.

End Server.

Arguments dimensions {Batch} _.
Arguments measures {Batch} _.
Arguments execute {Batch} _ _ _.
Arguments tables {Batch} _.
Arguments catalog {Batch} _.
Arguments new_catalog {Batch}.
Arguments register_table {Batch} _ _ _.
Arguments get_table {Batch} _ _.
Arguments handle_auth {Batch} _ _ _ _ _.
Arguments Build_TranslatedQuery {Batch} _ _ _ _ _.
Arguments tq_table_name {Batch} _.
Arguments tq_semantic_table {Batch} _.
Arguments tq_dimensions {Batch} _.
Arguments tq_measures {Batch} _.
Arguments tq_group_by_cols {Batch} _.
Arguments translate_table {Batch} _ _ _.
Arguments translate_ast {Batch} _ _.
Arguments translate {Batch} _ _ _.
Arguments Executed {Batch} _ _ _.
Arguments Delivered {Batch} _.
Arguments Failed {Batch} _.
Arguments Build_Outcome {Batch} _ _.
Arguments trace {Batch} _.
Arguments raised {Batch} _.
Arguments try_block {Batch} _ _ _ _.
Arguments handle_query {Batch} _ _ _ _.
Arguments handle_queries {Batch} _ _ _ _.
Arguments delivered {Batch} _.
Arguments executions {Batch} _.
Arguments known {Batch} _ _.
Arguments init {Batch} _ _ _ _ _.
Arguments serve {Batch} _.
Arguments register_semantic_table {Batch} _ _ _.
Arguments flights_table {Batch} _.
Arguments sales_table {Batch} _.
Arguments example_catalog {Batch} _.
Arguments example_connection {Batch} _.
Arguments overlapping_table {Batch} _.
Arguments dict_setitem {Batch} _ _ _.
Arguments dict_get {Batch} _ _.
Arguments Build_OrderedCatalog {Batch} _.
Arguments items {Batch} _.
Arguments new_ordered_catalog {Batch}.
Arguments register_table_ordered {Batch} _ _ _.
Arguments get_table_ordered {Batch} _ _.
Arguments list_tables {Batch} _.
Arguments catalog_of {Batch} _.
Arguments register_all {Batch} _ _.
Arguments last_registered {Batch} _ _.

(** ** The theorems at work on the examples *)

Lemma group_by_inferred_from_dimensions_witness :
  translate parse_examples (example_connection run_names)
    "SELECT origin, total_passengers FROM flights" =
    inr {| tq_table_name := "flights";
           tq_semantic_table := flights_table run_names;
           tq_dimensions := ["origin"];
           tq_measures := ["total_passengers"];
           tq_group_by_cols := ["origin"] |}
  ∧
  tq_group_by_cols
    {| tq_table_name := "flights";
       tq_semantic_table := flights_table run_names;
       tq_dimensions := [];
       tq_measures := ["total_passengers"];
       tq_group_by_cols := [] |} = [].
Proof.
  destruct (group_by_inferred_from_dimensions (list string) parse_examples)
    as [Hgen Hex].
  split.
  - apply Hex; vm_compute; reflexivity.
  - apply (Hgen (example_connection run_names)
             "SELECT total_passengers FROM flights" ast_passengers_only);
      [vm_compute; reflexivity..|].
    intros col Hcol. apply list_elem_of_singleton in Hcol as ->.
    simpl. compute_done.
Defined.

Lemma translated_query_well_formed_witness :
  get_table "flights" (catalog (example_connection run_names))
    = Some (flights_table run_names) ∧
  Forall (λ c, c ∈ dimensions (flights_table run_names)) ["origin"] ∧
  Forall (λ c, c ∈ measures (flights_table run_names)) ["total_passengers"] ∧
  ["origin"] `sublist_of` ["origin"; "total_passengers"] ∧
  ["total_passengers"] `sublist_of` ["origin"; "total_passengers"].
Proof.
  apply (translated_query_well_formed (list string) parse_examples
           (example_connection run_names)
           "SELECT origin, total_passengers FROM flights"
           ast_origin_passengers
           {| tq_table_name := "flights";
              tq_semantic_table := flights_table run_names;
              tq_dimensions := ["origin"];
              tq_measures := ["total_passengers"];
              tq_group_by_cols := ["origin"] |});
    vm_compute; reflexivity.
Defined.

Lemma column_not_found_aborts_witness :
  ∃ pre col post,
    ["origin"; "bogus"; "total_passengers"] = pre ++ col :: post ∧
    Forall (known (flights_table run_names)) pre ∧
    ¬ known (flights_table run_names) col ∧
    translate parse_examples (example_connection run_names)
      "SELECT origin, bogus, total_passengers FROM flights"
      = inl (ColumnNotFound col "flights") ∧
    handle_query parse_examples deliver_always (example_connection run_names)
      "SELECT origin, bogus, total_passengers FROM flights"
      = {| trace := [Failed (str (ColumnNotFound col "flights"))];
           raised := Some (ColumnNotFound col "flights") |} ∧
    executions
      (handle_query parse_examples deliver_always (example_connection run_names)
         "SELECT origin, bogus, total_passengers FROM flights") = [].
Proof.
  apply (column_not_found_aborts (list string) parse_examples deliver_always
           (example_connection run_names)
           "SELECT origin, bogus, total_passengers FROM flights"
           ast_bogus_column (Table "flights") (flights_table run_names));
    [vm_compute; reflexivity..|].
  apply Exists_cons_tl, Exists_cons_hd. unfold known. simpl. compute_done.
Defined.

Lemma missing_table_aborts_witness :
  handle_query parse_examples deliver_always (example_connection run_names)
    "SELECT 1"
    = {| trace := [Failed "No table specified in query"];
         raised := Some NoTableSpecified |}
  ∧
  handle_query parse_examples deliver_always (example_connection run_names)
    "SELECT origin FROM nowhere"
    = {| trace := [Failed "Table 'nowhere' not found in semantic catalog"];
         raised := Some (TableNotFound "nowhere") |}.
Proof.
  split.
  - apply (missing_table_aborts (list string) parse_examples deliver_always
             (example_connection run_names) "SELECT 1" ast_no_table);
      vm_compute; reflexivity.
  - destruct (missing_table_aborts (list string) parse_examples deliver_always
                (example_connection run_names) "SELECT origin FROM nowhere"
                ast_unknown_table eq_refl) as [_ Habsent].
    apply (Habsent (Table "nowhere")); vm_compute; reflexivity.
Defined.

Lemma register_last_write_wins_witness :
  get_table "flights"
    (register_table "flights" (flights_table run_names)
       (register_table "flights" (sales_table run_names) new_catalog))
    = Some (flights_table run_names)
  ∧
  translate parse_examples
    {| catalog :=
         register_table "flights" (flights_table run_names)
           (register_table "flights" (sales_table run_names) new_catalog) |}
    "SELECT origin, total_passengers FROM flights"
    = translate_table "flights" (flights_table run_names) ast_origin_passengers.
Proof.
  destruct (register_last_write_wins (list string) parse_examples new_catalog
              "flights" (sales_table run_names) (flights_table run_names))
    as (_ & Hget & _ & Htr).
  split; [exact Hget|].
  apply (Htr _ _ (Table "flights")); reflexivity.
Defined.


Lemma group_by_column_items_dropped_witness :
  translate parse_examples (example_connection run_names)
    "SELECT region, total_units FROM sales GROUP BY product" =
    inr {| tq_table_name := "sales";
           tq_semantic_table := sales_table run_names;
           tq_dimensions := ["region"];
           tq_measures := ["total_units"];
           tq_group_by_cols := ["region"] |}.
Proof.
  destruct (group_by_column_items_dropped (list string) parse_examples)
    as (_ & Hproduct & _).
  apply Hproduct; vm_compute; reflexivity.
Defined.

Lemma failed_query_reported_and_reraised_witness :
  handle_queries parse_examples deliver_always (example_connection run_names)
    ["SELECT origin, bogus, total_passengers FROM flights";
     "SELECT origin, total_passengers FROM flights"]
  = [ {| trace := [Failed "Column 'bogus' not found in semantic table 'flights'"];
         raised := Some (ColumnNotFound "bogus" "flights") |};
      {| trace := [Executed "flights" ["origin"] ["total_passengers"];
                   Delivered ["origin"; "total_passengers"]];
         raised := None |} ].
Proof.
  destruct (failed_query_reported_and_reraised (list string) parse_examples
              deliver_always (example_connection run_names)
              "SELECT origin, bogus, total_passengers FROM flights"
              [] (ColumnNotFound "bogus" "flights") eq_refl)
    as (_ & _ & Hnext).
  apply (Hnext "SELECT origin, total_passengers FROM flights"
           {| tq_table_name := "flights";
              tq_semantic_table := flights_table run_names;
              tq_dimensions := ["origin"];
              tq_measures := ["total_passengers"];
              tq_group_by_cols := ["origin"] |});
    vm_compute; reflexivity.
Defined.

Lemma auth_fixed_credentials_witness :
  handle_auth
    (serve (init "localhost" 5432 (Some "postgres") (Some "postgres")
              (Some (example_catalog run_names))))
    "user" "secret" "127.0.0.1" (Some "flights") = true
  ∧
  handle_auth
    (serve (init "localhost" 5432 (Some "postgres") (Some "postgres")
              (Some (example_catalog run_names))))
    "postgres" "postgres" "127.0.0.1" None ≠ true.
Proof.
  split.
  - apply (auth_fixed_credentials (list string)). done.
  - intros H. apply (auth_fixed_credentials (list string)) in H as [H _].
    discriminate H.
Defined.

(** ** The further properties at work on the examples *)

Lemma selected_columns_partitioned_witness :
  ["region"; "region"; "region"] ++ ["total_units"]
    ≡ₚ ["region"; "region"; "total_units"; "region"] ∧
  3 + 1 = 4.
Proof.
  apply (selected_columns_partitioned (list string) parse_examples
           (example_connection run_names) ast_repeated
           {| tq_table_name := "sales";
              tq_semantic_table := sales_table run_names;
              tq_dimensions := ["region"; "region"; "region"];
              tq_measures := ["total_units"];
              tq_group_by_cols := ["region"; "region"; "region"] |}).
  vm_compute; reflexivity.
Defined.

Lemma dimension_takes_precedence_witness :
  "region" ∈ ["region"] ∧ "region" ∉ ["total_units"].
Proof.
  apply (dimension_takes_precedence (list string) parse_examples
           {| catalog :=
                register_table "sales" (overlapping_table run_names) new_catalog |}
           ast_region_units_by_region
           {| tq_table_name := "sales";
              tq_semantic_table := overlapping_table run_names;
              tq_dimensions := ["region"];
              tq_measures := ["total_units"];
              tq_group_by_cols := ["region"] |}).
  - vm_compute; reflexivity.
  - constructor.
  - simpl. compute_done.
Defined.

Lemma group_by_explicit_or_inferred_witness :
  tq_group_by_cols
    {| tq_table_name := "sales";
       tq_semantic_table := sales_table run_names;
       tq_dimensions := ["region"];
       tq_measures := ["total_units"];
       tq_group_by_cols := ["product"] |}
  = explicit_group_by ast_group_identifier.
Proof.
  destruct (group_by_explicit_or_inferred (list string) parse_examples
              (example_connection run_names) ast_group_identifier
              {| tq_table_name := "sales";
                 tq_semantic_table := sales_table run_names;
                 tq_dimensions := ["region"];
                 tq_measures := ["total_units"];
                 tq_group_by_cols := ["product"] |})
    as [Hexplicit _].
  - vm_compute; reflexivity.
  - apply Hexplicit. vm_compute. discriminate.
Defined.


Lemma collaborator_errors_relayed_witness :
  handle_query parse_examples deliver_always (example_connection run_names)
    "SELEC origin" =
    {| trace := [Failed "Invalid expression / Unexpected token"];
       raised := Some (ParseError "Invalid expression / Unexpected token") |}
  ∧
  handle_query parse_examples deliver_always (example_connection run_down)
    "SELECT origin, total_passengers FROM flights" =
    {| trace := [Executed "flights" ["origin"] ["total_passengers"];
                 Failed "backend unavailable"];
       raised := Some (ExecutionError "backend unavailable") |}.
Proof.
  split.
  - destruct (collaborator_errors_relayed (list string) parse_examples
                deliver_always (example_connection run_names) "SELEC origin")
      as (Hparse & _ & _).
    apply (Hparse (ParseError "Invalid expression / Unexpected token")).
    vm_compute; reflexivity.
  - destruct (collaborator_errors_relayed (list string) parse_examples
                deliver_always (example_connection run_down)
                "SELECT origin, total_passengers FROM flights")
      as (_ & Hexec & _).
    apply (Hexec {| tq_table_name := "flights";
                    tq_semantic_table := flights_table run_down;
                    tq_dimensions := ["origin"];
                    tq_measures := ["total_passengers"];
                    tq_group_by_cols := ["origin"] |}
                 (ExecutionError "backend unavailable"));
      vm_compute; reflexivity.
Defined.

Lemma handle_query_returns_iff_witness :
  raised
    (handle_query parse_examples deliver_always (example_connection run_names)
       "SELECT origin, total_passengers FROM flights") = None.
Proof.
  apply (handle_query_returns_iff (list string) parse_examples deliver_always).
  exists {| tq_table_name := "flights";
            tq_semantic_table := flights_table run_names;
            tq_dimensions := ["origin"];
            tq_measures := ["total_passengers"];
            tq_group_by_cols := ["origin"] |},
         ["origin"; "total_passengers"].
  split_and!; vm_compute; reflexivity.
Defined.

Lemma other_tables_do_not_matter_witness :
  handle_query parse_examples deliver_always
    {| catalog :=
         register_table "sales" (overlapping_table run_names)
           (catalog (example_connection run_names)) |}
    "SELECT origin, total_passengers FROM flights"
  = handle_query parse_examples deliver_always (example_connection run_names)
      "SELECT origin, total_passengers FROM flights".
Proof.
  destruct (other_tables_do_not_matter (list string) parse_examples
              deliver_always (example_connection run_names)
              (example_connection run_names)
              "SELECT origin, total_passengers FROM flights"
              ast_origin_passengers (Table "flights") eq_refl eq_refl)
    as [_ Hreg].
  apply Hreg. discriminate.
Defined.

Lemma server_without_tables_witness :
  handle_query parse_examples deliver_always
    (serve (init "localhost" 5050 (Some "postgres") (Some "postgres") None))
    "SELECT origin, total_passengers FROM flights" =
    {| trace := [Failed "Table 'flights' not found in semantic catalog"];
       raised := Some (TableNotFound "flights") |}.
Proof.
  apply (server_without_tables (list string) parse_examples deliver_always
           "localhost" 5050 (Some "postgres") (Some "postgres")
           "SELECT origin, total_passengers FROM flights"
           ast_origin_passengers (Table "flights"));
    reflexivity.
Defined.

Lemma registered_table_served_witness :
  get_table "flights"
    (catalog (serve (register_semantic_table "sales" (sales_table run_names)
                       (init "localhost" 5432 None None
                          (Some (example_catalog run_names))))))
  = get_table "flights" (example_catalog run_names).
Proof.
  destruct (registered_table_served (list string)
              (init "localhost" 5432 None None (Some (example_catalog run_names)))
              "sales" (sales_table run_names))
    as (_ & _ & Hother & _).
  apply Hother. discriminate.
Defined.

Lemma list_tables_insertion_order_witness :
  NoDup
    (list_tables
       (register_table_ordered "flights" (sales_table run_names)
          (register_table_ordered "sales" (sales_table run_names)
             (register_table_ordered "flights" (flights_table run_names)
                new_ordered_catalog)))).
Proof.
  apply (list_tables_insertion_order (list string)).
  vm_compute. repeat constructor; compute_done.
Defined.

Lemma register_all_last_wins_witness :
  "sales" ∈
    list_tables
      (register_all [("flights", flights_table run_names);
                     ("sales", sales_table run_names);
                     ("flights", sales_table run_names)]
         new_ordered_catalog)
  ∧
  get_table_ordered "flights"
    (register_all [("flights", flights_table run_names);
                   ("sales", sales_table run_names);
                   ("flights", sales_table run_names)]
       new_ordered_catalog)
  = Some (sales_table run_names).
Proof.
  destruct (register_all_last_wins (list string)
              [("flights", flights_table run_names);
               ("sales", sales_table run_names);
               ("flights", sales_table run_names)])
    as (_ & Hin & Hget).
  split.
  - apply Hin. simpl. compute_done.
  - rewrite Hget. vm_compute. reflexivity.
Defined.
